(** * Click Speed Tester: the session controller of [App.tsx]

    The component [ClickSpeedTester] keeps three pieces of React state
    ([running], [clicks], [remaining]) and two refs ([timerRef],
    [endAtRef]).  Its handlers [start], [reset] and [handleClick], and the
    closure that [start] hands to [setInterval], are embedded below as
    functions on one record.  The host's interval timers are part of that
    record too: the set of intervals that are still armed and the next
    handle [setInterval] will return.

    Numbers: [Date.now()] and the counters are integral JavaScript numbers,
    modelled in [Z].  [remaining / 1000] is rounded to binary64 as the
    source does; [clicks / 5] is kept exact, which prints the same two
    digits for any count a session can reach.

    Rendering: the fields [running], [clicks] and [remaining] hold the state
    with every update applied.  [handleClick] and the [disabled] props do
    not read it: they read the [running] const of the render that created
    them.  A press handler's updates are rendered before the next event; an
    interval callback's updates are rendered later, at a [Render] event, and
    until then the handlers of the previous render stay in place.  The
    field [stale] records that lag.  The render after a tap changes what is
    shown of [clicks] only; whether it also picks up a callback's pending
    update is left to the next [Render] event, so that both orders are
    among the traces. *)

From Stdlib Require Import ZArith QArith Qabs Qround String DecimalString.
From stdpp Require Import base decidable option list gmap.

Local Open Scope Z_scope.

(* [set_solver] clears names that are not always there. *)
#[local] Set Warnings "-clear-no-such-hyp".

(** ** Data *)

Definition DURATION_MS : Z := 5000.

(** The interval period passed to [setInterval]. *)
Definition TICK_MS : Z := 50.

(** Handles returned by [setInterval] are truthy, hence [positive]. *)
Abbreviation TimerId := positive.

Record State := mkState {
  (* useState *)
  running   : bool;
  clicks    : Z;
  remaining : Z;
  (* useRef *)
  timerRef  : option TimerId;
  endAtRef  : Z;
  (* host event loop *)
  intervals : gset positive;
  nextId    : TimerId;
  (* renderer: an interval callback has set [running] to false and the
     render that shows it has not been committed yet *)
  stale     : bool
}.

(** The component right after mounting. *)
Definition initial : State :=
  {| running := false; clicks := 0; remaining := DURATION_MS;
     timerRef := None; endAtRef := 0;
     intervals := ∅; nextId := 1%positive; stale := false |}.

(** *** Setters *)

Definition setRunning (b : bool) (s : State) : State :=
  mkState b (clicks s) (remaining s) (timerRef s) (endAtRef s)
          (intervals s) (nextId s) (stale s).

Definition setClicks (c : Z) (s : State) : State :=
  mkState (running s) c (remaining s) (timerRef s) (endAtRef s)
          (intervals s) (nextId s) (stale s).

Definition setRemaining (r : Z) (s : State) : State :=
  mkState (running s) (clicks s) r (timerRef s) (endAtRef s)
          (intervals s) (nextId s) (stale s).

Definition setTimerRef (t : option TimerId) (s : State) : State :=
  mkState (running s) (clicks s) (remaining s) t (endAtRef s)
          (intervals s) (nextId s) (stale s).

Definition setEndAtRef (e : Z) (s : State) : State :=
  mkState (running s) (clicks s) (remaining s) (timerRef s) e
          (intervals s) (nextId s) (stale s).

Definition setStale (b : bool) (s : State) : State :=
  mkState (running s) (clicks s) (remaining s) (timerRef s) (endAtRef s)
          (intervals s) (nextId s) b.

(** *** Renders

    The [running] const that the handlers and props in place closed over:
    the state's, unless the render lags behind a callback that ended the
    session, and then [true]. *)
Definition renderedRunning (s : State) : bool :=
  running s || stale s.

(** A render is committed: handlers and props are those of the state. *)
Definition commit (s : State) : State := setStale false s.

(** [setRunning(false)] in an interval callback: the state changes, the
    handlers in place keep the [running] they closed over. *)
Definition deferRunningFalse (s : State) : State :=
  setRunning false (setStale (renderedRunning s) s).

(** *** Host timers *)

Definition clearInterval (t : TimerId) (s : State) : State :=
  mkState (running s) (clicks s) (remaining s) (timerRef s) (endAtRef s)
          (intervals s ∖ {[ t ]}) (nextId s) (stale s).

(** [setInterval] arms a new interval and returns its handle. *)
Definition setInterval (s : State) : TimerId * State :=
  (nextId s,
   mkState (running s) (clicks s) (remaining s) (timerRef s) (endAtRef s)
           (intervals s ∪ {[ nextId s ]}) (Pos.succ (nextId s)) (stale s)).

(** [if (timerRef.current) clearInterval(timerRef.current);] *)
Definition clearCurrent (s : State) : State :=
  match timerRef s with
  | Some t => clearInterval t s
  | None => s
  end.

(** ** Handlers *)

Definition start (now : Z) (s : State) : State :=
  let s := clearCurrent s in
  let s := setClicks 0 s in
  let s := setRemaining DURATION_MS s in
  let s := setRunning true s in
  let s := setEndAtRef (now + DURATION_MS) s in
  let '(t, s) := setInterval s in
  commit (setTimerRef (Some t) s).

(** The callback given to [setInterval] in [start]. *)
Definition tick (now : Z) (s : State) : State :=
  let left := Z.max 0 (endAtRef s - now) in
  let s := setRemaining left s in
  if left <=? 0 then
    let s := deferRunningFalse s in
    match timerRef s with
    | Some t => setTimerRef None (clearInterval t s)
    | None => s
    end
  else s.

Definition reset (s : State) : State :=
  let s := clearCurrent s in
  let s := setTimerRef None s in
  let s := setRunning false s in
  let s := setClicks 0 s in
  commit (setRemaining DURATION_MS s).

(** [if (!running) return;] tests the const of the render in place. *)
Definition handleClick (s : State) : State :=
  if negb (renderedRunning s) then s
  else setClicks (clicks s + 1) s.

(** ** Events *)

Inductive Event :=
| Start (now : Z)
| Reset
| Tap
| Tick (t : TimerId) (now : Z)
| Render.

(** An interval's callback runs only while that interval is armed. *)
Definition step (s : State) (e : Event) : State :=
  match e with
  | Start now => start now s
  | Reset => reset s
  | Tap => handleClick s
  | Tick t now => if decide (t ∈ intervals s) then tick now s else s
  | Render => commit s
  end.

Definition run (s : State) (evs : list Event) : State :=
  fold_left step evs s.

(** ** Phase *)

Inductive Phase := Idle | Running | Finished.

(** The render body shows the summary when [!running && remaining === 0]. *)
Definition finished (s : State) : bool :=
  negb (running s) && (remaining s =? 0).

Definition phase (s : State) : Phase :=
  if running s then Running
  else if remaining s =? 0 then Finished
  else Idle.

(** ** Rendering *)

Definition showZ (n : Z) : string :=
  NilZero.string_of_uint (N.to_uint (Z.to_N n)).

(** [Number.prototype.toFixed(2)]: the integer [n] with [n / 100] nearest
    to the magnitude of [x], the larger one on a tie, printed with two
    fraction digits and the sign of [x]. *)
Definition toFixed2 (x : Q) : string :=
  let n := Qfloor (Qabs x * 100 + (1 # 2))%Q in
  let whole := showZ (n / 100) in
  let frac := n mod 100 in
  let digits := if frac <? 10 then String.append "0" (showZ frac) else showZ frac in
  let body := String.append whole (String.append "." digits) in
  if Qle_bool 0 x then body else String.append "-" body.

(** *** Division of numbers

    The nearest integer, the even one on a tie. *)
Definition roundEven (q : Q) : Z :=
  let f := Qfloor q in
  match (q - inject_Z f ?= 1 # 2)%Q with
  | Lt => f
  | Gt => f + 1
  | Eq => if Z.even f then f else f + 1
  end.

(** [floor (log2 q)] for [0 < q]. *)
Definition ilog2 (q : Q) : Z :=
  let k := Z.log2 (Qnum q) - Z.log2 (Z.pos (Qden q)) in
  if Qle_bool (Qpower 2 k) q then k else k - 1.

(** The binary64 number nearest to [q], ties to the even significand: the
    value of a JavaScript arithmetic operation whose exact result is [q].
    Magnitudes are taken in the normal range, where every quotient of the
    component lies. *)
Definition binary64 (q : Q) : Q :=
  if Qeq_bool q 0 then 0%Q
  else
    let a := Qabs q in
    let e := ilog2 a in
    let m := roundEven (a * Qpower 2 (52 - e))%Q in
    let v := (inject_Z m * Qpower 2 (e - 52))%Q in
    if Qle_bool 0 q then v else Qopp v.

(** [remaining / 1000], and [clicks / (DURATION_MS / 1000)] before
    formatting.  The second is kept exact: [clicks / 5] has one fraction
    digit at most, so that rounding it to binary64 moves it by far less
    than the half hundredth that would change what [toFixed2] prints. *)
Definition secondsValue (s : State) : Q :=
  binary64 (inject_Z (remaining s) / 1000)%Q.

Definition cpsValue (s : State) : Q :=
  (inject_Z (clicks s) / (inject_Z DURATION_MS / 1000))%Q.

Definition seconds (s : State) : string := toFixed2 (secondsValue s).
Definition cps (s : State) : string := toFixed2 (cpsValue s).

(** What the returned element tree depends on: the timer text, the two
    [disabled] props, the score, and the summary line with the two values
    it interpolates (absent when the guard is false). *)
Record View := mkView {
  timerValue    : string;
  startDisabled : bool;
  clickDisabled : bool;
  scoreValue    : Z;
  summary       : option (Z * string)
}.

Definition render (s : State) : View :=
  {| timerValue := seconds s;
     startDisabled := running s;
     clickDisabled := negb (running s);
     scoreValue := clicks s;
     summary := if finished s then Some (clicks s, cps s) else None |}.

(** ** Clock readings along a trace

    [sessionStart] follows the reading taken by the latest [start] that has
    not been undone by [reset]; a trace is [readingsOk] when no interval
    callback reads a clock value earlier than that reading. *)

Definition sessionStart (t0 : option Z) (e : Event) : option Z :=
  match e with
  | Start now => Some now
  | Reset => None
  | Tap | Tick _ _ | Render => t0
  end.

Definition readingOk (t0 : option Z) (e : Event) : bool :=
  match e, t0 with
  | Tick _ now, Some t => t <=? now
  | _, _ => true
  end.

Fixpoint readingsOk (t0 : option Z) (evs : list Event) : bool :=
  match evs with
  | [] => true
  | e :: evs => readingOk t0 e && readingsOk (sessionStart t0 e) evs
  end.

(** ** Invariants *)

(** While running, the ref holds the one armed interval; otherwise the ref
    is null and nothing is armed. *)
Definition armed (s : State) : Prop :=
  if running s
  then ∃ t, timerRef s = Some t ∧ intervals s = {[ t ]}
  else timerRef s = None ∧ intervals s = ∅.

(** The deadline of a running session is its start reading plus the
    duration. *)
Definition deadlineOf (t0 : option Z) (s : State) : Prop :=
  running s = true → ∃ t, t0 = Some t ∧ endAtRef s = t + DURATION_MS.

Definition inRange (s : State) : Prop :=
  0 <= remaining s <= DURATION_MS.

(** Out of a session the display is at one of its two rest values. *)
Definition atRest (s : State) : Prop :=
  running s = false → remaining s = 0 ∨ remaining s = DURATION_MS.

(** ** A reading of the specification, as a predicate

    [reset_restores_initial s]: after [reset] the component is back at its
    initial value, the deadline ref included. *)
Definition reset_restores_initial (s : State) : Prop :=
  let s' := reset s in
  phase s' = Idle ∧ clicks s' = 0 ∧ remaining s' = DURATION_MS ∧
  timerRef s' = timerRef initial ∧ endAtRef s' = endAtRef initial.

(** The interval the ref points to, as a set. *)
Definition current (s : State) : gset positive :=
  match timerRef s with
  | Some t => {[ t ]}
  | None => ∅
  end.

(** ** Traces inside one session *)

Definition isTap (e : Event) : bool :=
  match e with Tap => true | _ => false end.

Definition isStart (e : Event) : bool :=
  match e with Start _ => true | _ => false end.

(** Number of taps in a trace. *)
Fixpoint countTaps (evs : list Event) : Z :=
  match evs with
  | [] => 0
  | e :: evs => (if isTap e then 1 else 0) + countTaps evs
  end.

(** Only taps, interval callbacks and renders: neither [start] nor
    [reset]. *)
Definition withinSession (evs : list Event) : bool :=
  forallb (λ e, match e with
                | Tap | Tick _ _ | Render => true
                | _ => false
                end) evs.

Definition noStart (evs : list Event) : bool :=
  forallb (λ e, negb (isStart e)) evs.

(** Handles are handed out in increasing order: whatever is armed or held
    in the ref was returned by an earlier [setInterval]. *)
Definition issued (s : State) : Prop :=
  (∀ t, t ∈ intervals s → (t < nextId s)%positive) ∧
  (∀ t, timerRef s = Some t → (t < nextId s)%positive).

(** The render lags only behind the callback that ended a session: then
    the session is over and the display is at zero. *)
Definition lagging (s : State) : Prop :=
  stale s = true → running s = false ∧ remaining s = 0.

(** ** Unmounting

    The cleanup returned by the mount effect:
    [if (timerRef.current) clearInterval(timerRef.current)]. *)
Definition unmount (s : State) : State := clearCurrent s.

(** ** Pressables

    The three session buttons of the element tree.  A [Pressable] whose
    [disabled] prop is true does not call its [onPress]; the props are
    those of the render in place, [disabled={running}] on the start button
    and [disabled={!running}] on the click area. *)
Inductive Press :=
| PressStart (now : Z)
| PressReset
| PressClick.

Definition press (s : State) (p : Press) : State :=
  match p with
  | PressStart now => if renderedRunning s then s else start now s
  | PressReset => reset s
  | PressClick => if negb (renderedRunning s) then s else handleClick s
  end.

Inductive UiEvent :=
| Pressed (p : Press)
| Fired (t : TimerId) (now : Z)
| Rendered.

Definition uiStep (s : State) (e : UiEvent) : State :=
  match e with
  | Pressed p => press s p
  | Fired t now => step s (Tick t now)
  | Rendered => step s Render
  end.

Definition uiRun (s : State) (evs : list UiEvent) : State :=
  fold_left uiStep evs s.

Fixpoint countClicks (evs : list UiEvent) : Z :=
  match evs with
  | [] => 0
  | e :: evs =>
      (match e with Pressed PressClick => 1 | _ => 0 end) + countClicks evs
  end.

(** No press of the reset button, and every callback reads the clock
    before the deadline [d]. *)
Definition undisturbed (d : Z) (evs : list UiEvent) : bool :=
  forallb (λ e, match e with
                | Pressed PressReset => false
                | Pressed _ => true
                | Fired _ now => now <? d
                | Rendered => true
                end) evs.

(** ** Theme *)

Module Theme.

Inductive Scheme := light | dark.

Record Palette := mkPalette {
  bg : string; text : string; card : string;
  border : string; primary : string; muted : string
}.

Definition PALETTE (c : Scheme) : Palette :=
  match c with
  | light => mkPalette "#f8fafc" "#0f172a" "#ffffff" "#cbd5e1" "#2563eb" "#e2e8f0"
  | dark => mkPalette "#0b0f19" "#e5e7eb" "#111827" "#374151" "#60a5fa" "#1f2937"
  end.

(** [(system ?? 'light')], [system] being what [useColorScheme] returned. *)
Definition initialScheme (system : option Scheme) : Scheme :=
  match system with
  | Some c => c
  | None => light
  end.

(** The updater of the toggle: [s === 'light' ? 'dark' : 'light']. *)
Definition toggle (c : Scheme) : Scheme :=
  match c with
  | light => dark
  | dark => light
  end.

(** [scheme === 'dark' ? 'light' : 'dark'], the style of the status bar. *)
Definition statusBarStyle (c : Scheme) : Scheme :=
  match c with
  | dark => light
  | light => dark
  end.

(** [n] presses of the toggle. *)
Definition toggles (n : nat) (c : Scheme) : Scheme := Nat.iter n toggle c.

End Theme.

(** * Proofs *)

Ltac break_state s :=
  let r := fresh "r" in let c := fresh "c" in let m := fresh "m" in
  let tr := fresh "tr" in let ea := fresh "ea" in
  let iv := fresh "iv" in let n := fresh "n" in
  let st := fresh "st" in
  destruct s as [r c m tr ea iv n st]; simpl in *.

Lemma run_cons s e evs : run s (e :: evs) = run (step s e) evs.
Proof. reflexivity. Qed.

Lemma phase_Running s : phase s = Running ↔ running s = true.
Proof.
  unfold phase. destruct (running s); [tauto|].
  destruct (remaining s =? 0); split; discriminate.
Qed.

Lemma phase_Finished s :
  phase s = Finished ↔ running s = false ∧ remaining s = 0.
Proof.
  unfold phase. destruct (running s).
  - split; [discriminate | intros [? _]; discriminate].
  - destruct (Z.eqb_spec (remaining s) 0); intuition congruence.
Qed.

Lemma phase_Idle s :
  phase s = Idle ↔ running s = false ∧ remaining s ≠ 0.
Proof.
  unfold phase. destruct (running s).
  - split; [discriminate | intros [? _]; discriminate].
  - destruct (Z.eqb_spec (remaining s) 0); intuition congruence.
Qed.

Lemma finished_phase s : finished s = true ↔ phase s = Finished.
Proof.
  rewrite phase_Finished. unfold finished.
  rewrite andb_true_iff, negb_true_iff, Z.eqb_eq. tauto.
Qed.

(** [handleClick] either counts or returns its argument, by the [running]
    of the render in place. *)
Lemma handleClick_cases s :
  (renderedRunning s = true ∧ handleClick s = setClicks (clicks s + 1) s) ∨
  (renderedRunning s = false ∧ handleClick s = s).
Proof.
  unfold handleClick. destruct (renderedRunning s); simpl; auto.
Qed.

Lemma running_rendered s : running s = true → renderedRunning s = true.
Proof. unfold renderedRunning. intros ->. reflexivity. Qed.

(** *** The timer invariant *)

Lemma armed_initial : armed initial.
Proof. unfold armed; simpl. split; reflexivity. Qed.

Lemma armed_start now s : armed s → armed (start now s).
Proof.
  unfold armed, start, clearCurrent. break_state s. intros H.
  destruct r.
  - destruct H as (t & -> & ->). simpl. exists n. split; [done|]. set_solver.
  - destruct H as [-> ->]. simpl. exists n. split; [done|]. set_solver.
Qed.

Lemma armed_reset s : armed s → armed (reset s).
Proof.
  unfold armed, reset, clearCurrent. break_state s. intros H.
  destruct r.
  - destruct H as (t & -> & ->). simpl. split; [done|]. set_solver.
  - destruct H as [-> ->]. simpl. done.
Qed.

Lemma armed_handleClick s : armed s → armed (handleClick s).
Proof.
  intros Ha. destruct (handleClick_cases s) as [[_ ->]|[_ ->]]; exact Ha.
Qed.

Lemma armed_commit s : armed s → armed (commit s).
Proof. intros Ha. exact Ha. Qed.

Lemma armed_tick now s : armed s → armed (tick now s).
Proof.
  unfold armed, tick. break_state s. intros H.
  destruct (Z.max 0 (ea - now) <=? 0); simpl; [|exact H].
  destruct r.
  - destruct H as (t & -> & ->). simpl. split; [done|]. set_solver.
  - destruct H as [-> ->]. simpl. done.
Qed.

Lemma armed_step s e : armed s → armed (step s e).
Proof.
  destruct e; simpl.
  - apply armed_start.
  - apply armed_reset.
  - apply armed_handleClick.
  - case_decide; [apply armed_tick | trivial].
  - apply armed_commit.
Qed.

Lemma armed_run evs : ∀ s, armed s → armed (run s evs).
Proof.
  induction evs as [|e evs IH]; intros s H; [exact H|].
  rewrite run_cons. apply IH, armed_step, H.
Qed.

(** With nothing armed no callback runs. *)
Lemma disarmed_tick_skipped s t now :
  intervals s = ∅ → step s (Tick t now) = s.
Proof.
  intros Hiv. simpl. rewrite Hiv. case_decide; [set_solver | reflexivity].
Qed.

(** *** The range of the display *)

Lemma inRange_initial : inRange initial.
Proof. unfold inRange, initial, DURATION_MS; simpl. lia. Qed.

Lemma deadlineOf_initial : deadlineOf None initial.
Proof. unfold deadlineOf; simpl. discriminate. Qed.

Lemma tick_remaining now s :
  remaining (tick now s) = Z.max 0 (endAtRef s - now).
Proof.
  unfold tick. break_state s.
  destruct (Z.max 0 (ea - now) <=? 0); simpl; [|reflexivity].
  destruct tr; reflexivity.
Qed.

Lemma tick_running now s :
  running (tick now s) =
  if Z.max 0 (endAtRef s - now) <=? 0 then false else running s.
Proof.
  unfold tick. break_state s.
  destruct (Z.max 0 (ea - now) <=? 0); simpl; [|reflexivity].
  destruct tr; reflexivity.
Qed.

Lemma tick_endAtRef now s : endAtRef (tick now s) = endAtRef s.
Proof.
  unfold tick. break_state s.
  destruct (Z.max 0 (ea - now) <=? 0); simpl; [|reflexivity].
  destruct tr; reflexivity.
Qed.

Lemma tick_clicks now s : clicks (tick now s) = clicks s.
Proof.
  unfold tick. break_state s.
  destruct (Z.max 0 (ea - now) <=? 0); simpl; [|reflexivity].
  destruct tr; reflexivity.
Qed.

(** One event keeps the three invariants together, the deadline being
    read against the session start the trace has reached. *)
Lemma session_step t0 s e :
  armed s → deadlineOf t0 s → inRange s →
  readingOk t0 e = true →
  deadlineOf (sessionStart t0 e) (step s e) ∧ inRange (step s e).
Proof.
  intros Harm Hdl Hrg Hok. destruct e as [now| | |t now|]; simpl.
  - split.
    + intros _. exists now. split; [reflexivity|].
      unfold start, clearCurrent. break_state s. destruct tr; reflexivity.
    + unfold inRange, start, clearCurrent, DURATION_MS.
      break_state s. destruct tr; simpl; lia.
  - split.
    + intros Hr. unfold reset, clearCurrent in Hr. break_state s.
      destruct tr; discriminate.
    + unfold inRange, reset, clearCurrent, DURATION_MS.
      break_state s. destruct tr; simpl; lia.
  - destruct (handleClick_cases s) as [[_ ->]|[_ ->]]; split; assumption.
  - case_decide as Hin; [|split; assumption].
    assert (Hr : running s = true).
    { unfold armed in Harm. destruct (running s); [reflexivity|].
      destruct Harm as [_ Hiv]. rewrite Hiv in Hin. set_solver. }
    destruct (Hdl Hr) as (t1 & -> & Hend). simpl in Hok.
    apply Z.leb_le in Hok. split.
    + intros Hr'. exists t1. rewrite tick_endAtRef. auto.
    + unfold inRange, DURATION_MS. rewrite tick_remaining, Hend.
      unfold DURATION_MS. lia.
  - split; assumption.
Qed.

Lemma session_run evs : ∀ t0 s,
  armed s → deadlineOf t0 s → inRange s →
  readingsOk t0 evs = true →
  inRange (run s evs).
Proof.
  induction evs as [|e evs IH]; intros t0 s Harm Hdl Hrg Hok; [exact Hrg|].
  simpl in Hok. apply andb_true_iff in Hok. destruct Hok as [Hok1 Hok2].
  rewrite run_cons.
  destruct (session_step t0 s e Harm Hdl Hrg Hok1) as [Hdl' Hrg'].
  apply (IH (sessionStart t0 e)); auto using armed_step.
Qed.

(** C1. From the initial state, along any sequence of start, reset, tap
    and interval callbacks in which no callback reads a clock value earlier
    than the reading of the start of its session, [remaining] stays between
    0 and [DURATION_MS] = 5000. *)
Theorem remaining_in_range (evs : list Event) :
  readingsOk None evs = true →
  0 <= remaining (run initial evs) <= 5000.
Proof.
  intros Hok.
  exact (session_run evs None initial armed_initial deadlineOf_initial
           inRange_initial Hok).
Qed.

Lemma remaining_in_range_witness :
  0 <= remaining (run initial
         [Start 100; Tap; Tick 1 2100; Tap; Tick 1 5200; Tap; Reset;
          Start 7000; Tick 2 7050]) <= 5000.
Proof. apply remaining_in_range. reflexivity. Defined.

(** Without the assumption on the clock the bound is lost: a callback that
    reads a value before the start of its session shows more than the
    whole duration. *)
Example remaining_clock_backwards :
  remaining (run initial [Start 1000; Tick 1 0]) = 6000.
Proof. reflexivity. Qed.

(** *** Field by field *)

Lemma start_fields now s :
  let s' := start now s in
  running s' = true ∧ clicks s' = 0 ∧ remaining s' = DURATION_MS ∧
  endAtRef s' = now + DURATION_MS ∧ timerRef s' = Some (nextId s) ∧
  intervals s' = (intervals s ∖ current s) ∪ {[ nextId s ]} ∧
  nextId s' = Pos.succ (nextId s).
Proof.
  unfold start, clearCurrent, current. break_state s.
  destruct tr; simpl; repeat split; set_solver.
Qed.

Lemma reset_fields s :
  let s' := reset s in
  running s' = false ∧ clicks s' = 0 ∧ remaining s' = DURATION_MS ∧
  endAtRef s' = endAtRef s ∧ timerRef s' = None ∧
  intervals s' = intervals s ∖ current s ∧ nextId s' = nextId s.
Proof.
  unfold reset, clearCurrent, current. break_state s.
  destruct tr; simpl; repeat split; set_solver.
Qed.

Lemma tick_timer now s :
  Z.max 0 (endAtRef s - now) <= 0 →
  timerRef (tick now s) = None ∧
  intervals (tick now s) = intervals s ∖ current s.
Proof.
  intros Hle. apply Z.leb_le in Hle.
  unfold tick, current. break_state s. rewrite Hle.
  destruct tr; simpl; split; set_solver.
Qed.

Lemma armed_current s : armed s → intervals s = current s.
Proof.
  unfold armed, current. destruct (running s).
  - intros (t & -> & ->). reflexivity.
  - intros [-> ->]. reflexivity.
Qed.

Lemma armed_cleared s : armed s → intervals s ∖ current s = ∅.
Proof. intros Ha. rewrite (armed_current s Ha). set_solver. Qed.

Lemma taps_running n : ∀ s,
  running s = true →
  clicks (run s (repeat Tap n)) = clicks s + Z.of_nat n.
Proof.
  induction n as [|n IH]; intros s Hr.
  - simpl. lia.
  - change (repeat Tap (S n)) with (Tap :: repeat Tap n).
    rewrite run_cons. simpl step.
    destruct (handleClick_cases s) as [[_ ->]|[Hs _]];
      [|rewrite (running_rendered s Hr) in Hs; discriminate].
    rewrite IH by exact Hr. simpl. lia.
Qed.

Lemma taps_stopped n : ∀ s,
  renderedRunning s = false → run s (repeat Tap n) = s.
Proof.
  induction n as [|n IH]; intros s Hr; [reflexivity|].
  change (repeat Tap (S n)) with (Tap :: repeat Tap n).
  rewrite run_cons. simpl step. unfold handleClick. rewrite Hr. simpl.
  apply IH, Hr.
Qed.

(** C2. In whatever state it is called, [start] leaves [clicks] at 0,
    [remaining] at [DURATION_MS], the deadline at [now + DURATION_MS] and
    the phase at Running; the taps that follow are counted from zero, so
    nothing of an earlier session is carried over. *)
Theorem start_fresh_session (s : State) (now : Z) :
  let s' := start now s in
  clicks s' = 0 ∧
  remaining s' = DURATION_MS ∧
  endAtRef s' = now + DURATION_MS ∧
  phase s' = Running ∧
  ∀ n, clicks (run s' (repeat Tap n)) = Z.of_nat n.
Proof.
  destruct (start_fields now s) as (Hr & Hc & Hm & He & _).
  cbv zeta. split; [exact Hc|]. split; [exact Hm|]. split; [exact He|].
  split.
  - apply phase_Running, Hr.
  - intros n. rewrite taps_running by exact Hr. rewrite Hc. lia.
Qed.

(** In a running session exactly the interval of the ref can fire, and
    firing it runs the callback. *)
Lemma running_tick_fires s now :
  armed s → running s = true →
  ∃ t, timerRef s = Some t ∧ step s (Tick t now) = tick now s.
Proof.
  unfold armed. intros Ha Hr. rewrite Hr in Ha.
  destruct Ha as (t & Ht & Hiv). exists t. split; [exact Ht|].
  simpl. rewrite Hiv. case_decide as Hin; [reflexivity|].
  exfalso. apply Hin. set_solver.
Qed.

(** C3. In a state reached from the initial one whose phase is Running,
    the interval callback reading the clock value [now] stores
    [left = max 0 (endAtRef - now)] in [remaining].  When [left <= 0] the
    phase becomes Finished, the ref is nulled and no interval is left
    armed, so that no later callback changes the state; when [0 < left]
    the phase is still Running and neither the counter nor the deadline
    has moved. *)
Theorem tick_effect (evs : list Event) (now : Z) :
  let s := run initial evs in
  phase s = Running →
  let left := Z.max 0 (endAtRef s - now) in
  let s' := tick now s in
  (∃ t, timerRef s = Some t ∧ step s (Tick t now) = s') ∧
  remaining s' = left ∧
  (left <= 0 →
     phase s' = Finished ∧ timerRef s' = None ∧ intervals s' = ∅ ∧
     ∀ t' now', step s' (Tick t' now') = s') ∧
  (0 < left →
     phase s' = Running ∧ clicks s' = clicks s ∧ endAtRef s' = endAtRef s).
Proof.
  intros s Hph left s'. apply phase_Running in Hph.
  assert (Ha : armed s) by apply armed_run, armed_initial.
  split; [apply running_tick_fires; assumption|].
  split; [apply tick_remaining|].
  split.
  - intros Hle. destruct (tick_timer now s Hle) as [Htr Hiv].
    assert (Hnone : intervals s' = ∅).
    { subst s'. rewrite Hiv. apply armed_cleared, Ha. }
    split; [|split; [exact Htr|split; [exact Hnone|]]].
    + apply phase_Finished. subst s'. rewrite tick_running, tick_remaining.
      fold left. rewrite (proj2 (Z.leb_le left 0) Hle).
      split; [reflexivity|]. subst left. lia.
    + intros t' now'. apply disarmed_tick_skipped, Hnone.
  - intros Hlt. subst s'. split; [|split].
    + apply phase_Running. rewrite tick_running. fold left.
      rewrite (proj2 (Z.leb_gt left 0) Hlt). exact Hph.
    + apply tick_clicks.
    + apply tick_endAtRef.
Qed.

Lemma tick_effect_witness :
  let s := run initial [Start 100; Tap; Tick 1 2100; Tap] in
  remaining (tick 5200 s) = 0 ∧ phase (tick 5200 s) = Finished ∧
  intervals (tick 5200 s) = ∅ ∧
  remaining (tick 4100 s) = 1000 ∧ clicks (tick 4100 s) = 2.
Proof.
  pose (evs := [Start 100; Tap; Tick 1%positive 2100; Tap]).
  assert (Hph : phase (run initial evs) = Running) by reflexivity.
  destruct (tick_effect evs 5200 Hph) as (_ & Hrem & Hfin & _).
  destruct (tick_effect evs 4100 Hph) as (_ & Hrem' & _ & Hgo).
  destruct Hfin as (Hp & _ & Hiv & _); [vm_compute; discriminate|].
  destruct Hgo as (_ & Hc & _); [reflexivity|].
  cbv zeta. fold evs. repeat split; try assumption.
Defined.

(** What a tap does, in every state: when the render in place has
    [running] true it adds one to [clicks] and keeps every other field;
    when it has [running] false the state is returned as it is. *)
Lemma handleClick_effect (s : State) :
  (renderedRunning s = true →
     clicks (handleClick s) = clicks s + 1 ∧
     running (handleClick s) = running s ∧
     remaining (handleClick s) = remaining s ∧
     timerRef (handleClick s) = timerRef s ∧
     endAtRef (handleClick s) = endAtRef s ∧
     intervals (handleClick s) = intervals s ∧
     nextId (handleClick s) = nextId s ∧
     stale (handleClick s) = stale s) ∧
  (renderedRunning s = false → handleClick s = s).
Proof.
  unfold handleClick. split; intros ->; simpl.
  - repeat (split; [reflexivity|]). reflexivity.
  - reflexivity.
Qed.

(** Once the render is up to date the handler in place reads the phase. *)
Lemma rendered_phase (s : State) :
  stale s = false → (renderedRunning s = true ↔ phase s = Running).
Proof.
  intros Hs. rewrite phase_Running. unfold renderedRunning. rewrite Hs.
  rewrite orb_false_r. tauto.
Qed.

(** C4 does not hold of the code.  Start at 0, tap once, let the callback
    read 5000: the phase is Finished and one click is counted.  The guard
    of [handleClick] still reads the [running] of the render made while
    the session was running, so a tap delivered before the next render is
    counted and the state changes; after that render the same tap does
    nothing. *)
Theorem tap_after_finish_counted :
  let s := run initial [Start 0; Tap; Tick 1 5000] in
  phase s = Finished ∧
  clicks s = 1 ∧
  clicks (handleClick s) = 2 ∧
  handleClick s ≠ s ∧
  handleClick (step s Render) = step s Render.
Proof.
  cbv zeta. split; [vm_compute; reflexivity|].
  split; [vm_compute; reflexivity|]. split; [vm_compute; reflexivity|].
  split; [|vm_compute; reflexivity].
  intros H. apply (f_equal clicks) in H. vm_compute in H. discriminate H.
Qed.

(** C5, as written, fails: [reset] never assigns [endAtRef], so after a
    session was started the deadline ref still holds that session's
    deadline and not the value it had at mounting. *)
Lemma reset_keeps_deadline :
  endAtRef (reset (start 1000 initial)) = 6000 ∧
  endAtRef initial = 0 ∧
  ¬ reset_restores_initial (start 1000 initial).
Proof.
  split; [reflexivity|]. split; [reflexivity|].
  unfold reset_restores_initial. intros (_ & _ & _ & _ & H).
  vm_compute in H. discriminate H.
Qed.

(** C5, amended. In whatever state it is called, [reset] leaves the phase
    at Idle, [clicks] at 0 and [remaining] at [DURATION_MS], nulls the
    timer ref and disarms the interval it pointed to; the deadline ref is
    left as it was.  Every field but the deadline is back at its initial
    value, and the screen is the one rendered at mounting. *)
Theorem reset_effect (s : State) :
  let s' := reset s in
  phase s' = Idle ∧
  running s' = running initial ∧
  clicks s' = clicks initial ∧
  remaining s' = remaining initial ∧
  timerRef s' = timerRef initial ∧
  intervals s' = intervals s ∖ current s ∧
  endAtRef s' = endAtRef s ∧
  render s' = render initial.
Proof.
  destruct (reset_fields s) as (Hr & Hc & Hm & He & Ht & Hiv & _).
  cbv zeta. split; [|split; [|split; [|split; [|split; [|split; [|split]]]]]];
    try assumption.
  - apply phase_Idle. rewrite Hr, Hm. split; [reflexivity|discriminate].
  - unfold render, seconds, cps, secondsValue, cpsValue, finished.
    rewrite Hr, Hc, Hm. reflexivity.
Qed.

(** *** The counter *)

Lemma step_clicks s e :
  (e = Tap ∧ renderedRunning s = true ∧ clicks (step s e) = clicks s + 1) ∨
  ((e = Reset ∨ ∃ now, e = Start now) ∧ clicks (step s e) = 0) ∨
  ((e = Tap ∧ renderedRunning s = false ∨ (∃ t now, e = Tick t now) ∨
    e = Render) ∧
   clicks (step s e) = clicks s).
Proof.
  destruct e as [now| | |t now|]; cbn [step].
  - right; left. split; [eauto|]. exact (proj1 (proj2 (start_fields now s))).
  - right; left. split; [eauto|]. exact (proj1 (proj2 (reset_fields s))).
  - destruct (handleClick_cases s) as [[Hs ->]|[Hs ->]]; [left|right; right];
      auto.
  - right; right. split; [eauto|].
    case_decide; [apply tick_clicks|reflexivity].
  - right; right. split; [auto|reflexivity].
Qed.

(** C6 does not hold of the code, for the reason C4 does not.  After start
    at 0, one tap and the callback reading 5000, Finished is reached with
    one click; a tap delivered before the next render adds one although
    the phase is, and stays, Finished.  The rest of the sentence holds:
    a callback and a render never change [clicks], and once the finished
    state is rendered no tap changes it. *)
Theorem finished_tap_changes_clicks :
  let s := run initial [Start 0; Tap; Tick 1 5000] in
  phase s = Finished ∧
  clicks (step s Tap) = clicks s + 1 ∧
  phase (step s Tap) = Finished ∧
  clicks (run s [Render; Tap; Tap]) = clicks s.
Proof. vm_compute. repeat split. Qed.

Lemma tick_keeps_clicks s t now : clicks (step s (Tick t now)) = clicks s.
Proof. cbn [step]. case_decide; [apply tick_clicks|reflexivity]. Qed.

Lemma rendered_finish_keeps_clicks s n :
  phase s = Finished → stale s = false →
  clicks (run s (repeat Tap n)) = clicks s.
Proof.
  intros Hph Hst. rewrite taps_stopped; [reflexivity|].
  apply phase_Finished in Hph. unfold renderedRunning.
  rewrite (proj1 Hph), Hst. reflexivity.
Qed.

(** *** Reaching Finished *)

(** C7. The only event that takes a state whose phase is Running to one
    whose phase is Finished is the callback of an armed interval that
    computes [max 0 (endAtRef - now) <= 0].  [start] always ends in
    Running and [reset] in Idle, and [handleClick] keeps the phase it
    found, so none of the three moves a session into Finished. *)
Theorem finished_only_by_tick (s : State) :
  (∀ e, phase s = Running → phase (step s e) = Finished →
        ∃ t now, e = Tick t now ∧ t ∈ intervals s ∧
                 Z.max 0 (endAtRef s - now) <= 0) ∧
  (∀ now, phase (start now s) = Running) ∧
  phase (reset s) = Idle ∧
  phase (handleClick s) = phase s.
Proof.
  assert (Hstart : ∀ now, phase (start now s) = Running).
  { intros now. apply phase_Running. exact (proj1 (start_fields now s)). }
  assert (Hreset : phase (reset s) = Idle).
  { destruct (reset_fields s) as (Hr & _ & Hm & _).
    apply phase_Idle. rewrite Hr, Hm. split; [reflexivity|discriminate]. }
  assert (Htap : phase (handleClick s) = phase s).
  { destruct (handleClick_cases s) as [[_ ->]|[_ ->]]; reflexivity. }
  split; [|auto].
  intros e Hrun Hfin. destruct e as [now| | |t now|]; simpl in Hfin.
  - rewrite Hstart in Hfin. discriminate.
  - rewrite Hreset in Hfin. discriminate.
  - rewrite Htap, Hrun in Hfin. discriminate.
  - case_decide as Hin; [|rewrite Hrun in Hfin; discriminate].
    exists t, now. split; [reflexivity|]. split; [exact Hin|].
    apply phase_Finished in Hfin. destruct Hfin as [Hr _].
    rewrite tick_running in Hr. apply phase_Running in Hrun.
    destruct (Z.leb_spec (Z.max 0 (endAtRef s - now)) 0); [assumption|].
    congruence.
  - change (phase (commit s)) with (phase s) in Hfin.
    rewrite Hrun in Hfin. discriminate.
Qed.

Lemma finished_only_by_tick_witness :
  ∃ t now, Tick 1 5000 = Tick t now ∧
           t ∈ intervals (run initial [Start 0; Tap]) ∧
           Z.max 0 (endAtRef (run initial [Start 0; Tap]) - now) <= 0.
Proof.
  apply (proj1 (finished_only_by_tick (run initial [Start 0; Tap]))
           (Tick 1%positive 5000)); reflexivity.
Defined.

(** *** One interval at a time *)

Lemma armed_size s : armed s → (size (intervals s) ≤ 1)%nat.
Proof.
  unfold armed. destruct (running s).
  - intros (t & _ & ->). rewrite size_singleton. constructor.
  - intros [_ ->]. rewrite size_empty. repeat constructor.
Qed.

(** C8. In every state reached from the initial one at most one interval
    is armed.  There [start] has disarmed the interval of the ref before
    it calls [setInterval], after which the new interval is the only one;
    [reset] leaves none armed, and neither does the callback that ends the
    session. *)
Theorem single_interval (evs : list Event) :
  let s := run initial evs in
  (size (intervals s) ≤ 1)%nat ∧
  (∀ now, intervals (clearCurrent s) = ∅ ∧
          intervals (start now s) = {[ nextId s ]} ∧
          timerRef (start now s) = Some (nextId s)) ∧
  intervals (reset s) = ∅ ∧
  (∀ now, Z.max 0 (endAtRef s - now) <= 0 → intervals (tick now s) = ∅).
Proof.
  intros s.
  assert (Ha : armed s) by apply armed_run, armed_initial.
  pose proof (armed_cleared s Ha) as Hcl.
  split; [apply armed_size, Ha|]. split; [|split].
  - intros now. destruct (start_fields now s) as (_ & _ & _ & _ & Ht & Hiv & _).
    split; [|split; [|exact Ht]].
    + rewrite <- Hcl. unfold clearCurrent, current.
      destruct (timerRef s); simpl; set_solver.
    + rewrite Hiv, Hcl. set_solver.
  - destruct (reset_fields s) as (_ & _ & _ & _ & _ & Hiv & _).
    rewrite Hiv. exact Hcl.
  - intros now Hle. destruct (tick_timer now s Hle) as [_ Hiv].
    rewrite Hiv. exact Hcl.
Qed.

Lemma single_interval_witness :
  intervals (tick 5020 (run initial [Start 0; Start 10; Tap; Start 20])) = ∅.
Proof.
  apply (proj2 (proj2 (proj2
           (single_interval [Start 0; Start 10; Tap; Start 20])))).
  vm_compute. discriminate.
Defined.

(** Two starts in a row: the first interval is gone, the second is armed. *)
Example start_twice :
  intervals (run initial [Start 0; Start 10]) = {[ 2%positive ]} ∧
  step (run initial [Start 0; Start 10]) (Tick 1 60) =
    run initial [Start 0; Start 10].
Proof. split; vm_compute; reflexivity. Qed.

(** *** The summary line *)

Lemma toFixed2_Qeq (x y : Q) : (x == y)%Q → toFixed2 x = toFixed2 y.
Proof.
  intros Hxy. unfold toFixed2.
  assert (Hfl : Qfloor (Qabs x * 100 + (1 # 2)) = Qfloor (Qabs y * 100 + (1 # 2))).
  { apply Qfloor_comp. rewrite Hxy. reflexivity. }
  assert (Hle : Qle_bool 0 x = Qle_bool 0 y).
  { apply Qleb_comp; [reflexivity|exact Hxy]. }
  rewrite Hfl, Hle. reflexivity.
Qed.

Lemma cpsValue_fifth s : (cpsValue s == clicks s # 5)%Q.
Proof.
  unfold cpsValue, DURATION_MS, Qeq, Qdiv, Qmult, Qinv, inject_Z. simpl.
  lia.
Qed.

(** C9. The rate is [clicks / (DURATION_MS / 1000)], that is [clicks / 5]:
    it is a function of the counter alone (two states with the same
    counter have the same rate, whatever their clock fields), and the
    summary line carrying it is rendered exactly in the Finished phase. *)
Theorem cps_fixed_window (s : State) :
  (cpsValue s == clicks s # 5)%Q ∧
  cps s = toFixed2 (clicks s # 5) ∧
  (∀ s0, clicks s0 = clicks s → cps s0 = cps s) ∧
  (phase s = Finished → summary (render s) = Some (clicks s, cps s)) ∧
  (phase s ≠ Finished → summary (render s) = None).
Proof.
  split; [apply cpsValue_fifth|].
  assert (Hcps : ∀ s1, cps s1 = toFixed2 (clicks s1 # 5)).
  { intros s1. apply toFixed2_Qeq, cpsValue_fifth. }
  split; [apply Hcps|]. split; [|split].
  - intros s0 Hc. rewrite !Hcps, Hc. reflexivity.
  - intros Hph. apply finished_phase in Hph. simpl. rewrite Hph. reflexivity.
  - intros Hph. simpl. destruct (finished s) eqn:Hf; [|reflexivity].
    apply finished_phase in Hf. contradiction.
Qed.

Lemma cps_fixed_window_witness :
  summary (render (run initial
     [Start 0; Tap; Tap; Tap; Tick 1 2000; Tap; Tick 1 5001; Render; Tap])) =
    Some (4, "0.80"%string) ∧
  summary (render (run initial [Start 0; Tap; Tick 1 2000])) = None.
Proof.
  split.
  - apply (proj1 (proj2 (proj2 (proj2 (cps_fixed_window
       (run initial [Start 0; Tap; Tap; Tap; Tick 1%positive 2000; Tap;
                     Tick 1%positive 5001; Render; Tap])))))).
    reflexivity.
  - apply (proj2 (proj2 (proj2 (proj2 (cps_fixed_window
       (run initial [Start 0; Tap; Tick 1%positive 2000])))))).
    vm_compute. discriminate.
Defined.

(** *** Rest values *)

Lemma atRest_initial : atRest initial.
Proof. unfold atRest. intros _. right. reflexivity. Qed.

Lemma atRest_step s e : armed s → atRest s → atRest (step s e).
Proof.
  intros Ha Hrest. destruct e as [now| | |t now|]; cbn [step].
  - intros Hr. destruct (start_fields now s) as (Hr' & _). congruence.
  - intros _. right. exact (proj1 (proj2 (proj2 (reset_fields s)))).
  - destruct (handleClick_cases s) as [[_ ->]|[_ ->]]; exact Hrest.
  - case_decide as Hin; [|exact Hrest].
    intros Hr. rewrite tick_running in Hr. rewrite tick_remaining.
    destruct (Z.leb_spec (Z.max 0 (endAtRef s - now)) 0) as [Hle|Hlt].
    + left. lia.
    + exfalso. unfold armed in Ha. rewrite Hr in Ha.
      destruct Ha as [_ Hiv]. rewrite Hiv in Hin. set_solver.
  - exact Hrest.
Qed.

Lemma atRest_run evs : ∀ s, armed s → atRest s → atRest (run s evs).
Proof.
  induction evs as [|e evs IH]; intros s Ha Hrest; [exact Hrest|].
  rewrite run_cons. apply IH; [apply armed_step, Ha|apply atRest_step; auto].
Qed.

(** C10. In every state reached from the initial one with [running] false,
    [remaining] is 0 or [DURATION_MS].  The guard of the summary line is
    false at mounting and after every [reset], and in a reached state the
    pair ([running], [remaining]) tells the phases apart: Idle is not
    running at [DURATION_MS], Finished is not running at 0. *)
Theorem rest_values (evs : list Event) :
  let s := run initial evs in
  (running s = false → remaining s = 0 ∨ remaining s = DURATION_MS) ∧
  finished initial = false ∧
  (∀ s0, finished (reset s0) = false) ∧
  (phase s = Idle ↔ running s = false ∧ remaining s = DURATION_MS) ∧
  (phase s = Finished ↔ running s = false ∧ remaining s = 0) ∧
  (phase s = Running ↔ running s = true).
Proof.
  intros s.
  assert (Hrest : atRest s)
    by (apply atRest_run; [apply armed_initial|apply atRest_initial]).
  split; [exact Hrest|]. split; [reflexivity|]. split; [|split; [|split]].
  - intros s0. destruct (reset_fields s0) as (Hr & _ & Hm & _).
    unfold finished. rewrite Hr, Hm. reflexivity.
  - rewrite phase_Idle. split.
    + intros [Hr Hne]. split; [exact Hr|].
      destruct (Hrest Hr); [contradiction|assumption].
    + intros [Hr Hm]. split; [exact Hr|]. rewrite Hm. discriminate.
  - apply phase_Finished.
  - apply phase_Running.
Qed.

Lemma rest_values_witness :
  remaining (run initial [Start 0; Tap; Tick 1 5000; Tap]) = 0 ∨
  remaining (run initial [Start 0; Tap; Tick 1 5000; Tap]) = DURATION_MS.
Proof.
  apply (proj1 (rest_values [Start 0; Tap; Tick 1%positive 5000; Tap])).
  reflexivity.
Defined.

(** ** Scenarios *)

(** Start at 0; five taps around 2000: five clicks, still running, three
    seconds left. *)
Example scenario_taps :
  let s := run initial [Start 0; Tick 1 2000; Tap; Tap; Tap; Tap; Tap] in
  clicks s = 5 ∧ phase s = Running ∧ remaining s = 3000 ∧
  seconds s = "3.00"%string.
Proof. vm_compute. repeat split. Qed.

(** Ticks until the clock passes 5000: finished at zero, taps after the
    render of that state are not counted, and the rate is the count over
    five seconds. *)
Example scenario_expiry :
  let s := run initial
    [Start 0; Tap; Tap; Tap; Tick 1 50; Tap; Tap; Tap; Tap; Tick 1 4950;
     Tick 1 5000; Render; Tap; Tap] in
  phase s = Finished ∧ remaining s = 0 ∧ clicks s = 7 ∧
  summary (render s) = Some (7, "1.40"%string).
Proof. vm_compute. repeat split. Qed.

(** Ten taps, then reset before expiry. *)
Example scenario_reset :
  let s := run initial (Start 0 :: repeat Tap 10 ++ [Reset]) in
  clicks s = 0 ∧ phase s = Idle ∧ remaining s = DURATION_MS ∧
  intervals s = ∅.
Proof. vm_compute. repeat split. Qed.

(** * Sessions as a whole *)

(** *** What one tap or one callback does *)

Lemma handleClick_running s : running (handleClick s) = running s.
Proof. destruct (handleClick_cases s) as [[_ ->]|[_ ->]]; reflexivity. Qed.

Lemma handleClick_endAtRef s : endAtRef (handleClick s) = endAtRef s.
Proof. destruct (handleClick_cases s) as [[_ ->]|[_ ->]]; reflexivity. Qed.

Lemma handleClick_timerRef s : timerRef (handleClick s) = timerRef s.
Proof. destruct (handleClick_cases s) as [[_ ->]|[_ ->]]; reflexivity. Qed.

Lemma step_clicks_le s e :
  0 <= clicks s →
  0 <= clicks (step s e) <= clicks s + (if isTap e then 1 else 0).
Proof.
  intros Hc.
  destruct (step_clicks s e)
    as [(-> & _ & H)|[[[->|[now ->]] H]|[[[-> _]|[(t & now & ->)| ->]] H]]];
    rewrite H; simpl; lia.
Qed.

Lemma clicks_run_le evs : ∀ s,
  0 <= clicks s →
  0 <= clicks (run s evs) <= clicks s + countTaps evs.
Proof.
  induction evs as [|e evs IH]; intros s Hc.
  - simpl. lia.
  - rewrite run_cons. pose proof (step_clicks_le s e Hc) as He.
    specialize (IH (step s e) (proj1 He)). cbn [countTaps]. lia.
Qed.

(** A tap, a callback or a render does not start a session, and in a
    running one it keeps the deadline and counts the tap, if it is one. *)
Lemma session_event s e :
  withinSession [e] = true →
  (running (step s e) = true → running s = true) ∧
  endAtRef (step s e) = endAtRef s ∧
  (running s = true →
   clicks (step s e) = clicks s + (if isTap e then 1 else 0)).
Proof.
  destruct e as [now| | |t now|]; try discriminate; intros _; cbn [step isTap].
  - split; [rewrite handleClick_running; auto|].
    split; [apply handleClick_endAtRef|].
    intros Hr. unfold handleClick. rewrite (running_rendered s Hr).
    reflexivity.
  - case_decide.
    + split; [|split; [apply tick_endAtRef|]].
      * rewrite tick_running.
        destruct (Z.max 0 (endAtRef s - now) <=? 0); [discriminate|auto].
      * intros _. rewrite tick_clicks. lia.
    + split; [auto|]. split; [reflexivity|]. intros _. lia.
  - split; [auto|]. split; [reflexivity|]. intros _. simpl. lia.
Qed.

Lemma session_trace evs : ∀ s,
  withinSession evs = true →
  running (run s evs) = true →
  running s = true ∧
  endAtRef (run s evs) = endAtRef s ∧
  clicks (run s evs) = clicks s + countTaps evs.
Proof.
  induction evs as [|e evs IH]; intros s Hw Hr.
  - simpl. split; [exact Hr|]. split; [reflexivity|lia].
  - cbn [withinSession forallb] in Hw. apply andb_true_iff in Hw.
    destruct Hw as [He Hw]. rewrite run_cons in *.
    destruct (IH (step s e) Hw Hr) as (Hr1 & Hd & Hc).
    destruct (session_event s e) as (Hr0 & Hd0 & Hc0).
    { cbn [withinSession forallb]. rewrite He. reflexivity. }
    specialize (Hr0 Hr1). split; [exact Hr0|].
    split; [congruence|]. rewrite Hc, (Hc0 Hr0). cbn [countTaps]. lia.
Qed.

Lemma rest_trace evs : ∀ s,
  armed s → renderedRunning s = false → withinSession evs = true →
  run s evs = s.
Proof.
  induction evs as [|e evs IH]; intros s Ha Hr Hw; [reflexivity|].
  cbn [withinSession forallb] in Hw. apply andb_true_iff in Hw.
  destruct Hw as [He Hw]. rewrite run_cons.
  assert (Hs : step s e = s).
  { pose proof Hr as Hr'. unfold renderedRunning in Hr'.
    apply orb_false_iff in Hr' as [Hrun Hst].
    destruct e as [now| | |t now|]; try discriminate.
    - simpl. unfold handleClick. rewrite Hr. reflexivity.
    - apply disarmed_tick_skipped. unfold armed in Ha. rewrite Hrun in Ha.
      tauto.
    - cbn [step]. unfold commit, setStale. destruct s; simpl in *.
      rewrite Hst. reflexivity. }
  rewrite Hs. apply IH; assumption.
Qed.

Lemma endAtRef_run evs : ∀ s,
  noStart evs = true → endAtRef (run s evs) = endAtRef s.
Proof.
  induction evs as [|e evs IH]; intros s Hn; [reflexivity|].
  cbn [noStart forallb] in Hn. apply andb_true_iff in Hn.
  destruct Hn as [He Hn]. rewrite run_cons, (IH _ Hn).
  destruct e as [now| | |t now|]; try discriminate; cbn [step].
  - exact (proj1 (proj2 (proj2 (proj2 (reset_fields s))))).
  - apply handleClick_endAtRef.
  - case_decide; [apply tick_endAtRef|reflexivity].
  - reflexivity.
Qed.

(** X1. Whatever the sequence of events from mounting, the counter is
    never negative and never exceeds the number of taps in the sequence. *)
Theorem clicks_bounded_by_taps (evs : list Event) :
  0 <= clicks (run initial evs) <= countTaps evs.
Proof.
  pose proof (clicks_run_le evs initial) as H. simpl in H. apply H. lia.
Qed.

(** X2. Along taps, callbacks and renders only, a session that is still
    running at the end was running from the beginning, has the deadline it
    began with, and has counted every tap exactly once. *)
Theorem taps_all_counted (s : State) (evs : list Event) :
  withinSession evs = true →
  running (run s evs) = true →
  running s = true ∧
  endAtRef (run s evs) = endAtRef s ∧
  clicks (run s evs) = clicks s + countTaps evs.
Proof. apply session_trace. Qed.

Lemma taps_all_counted_witness :
  clicks (run (start 0 initial) [Tap; Tick 1 50; Tap; Tap; Tick 1 100]) =
  clicks (start 0 initial) + 3.
Proof.
  apply (taps_all_counted (start 0 initial)
           [Tap; Tick 1%positive 50; Tap; Tap; Tick 1%positive 100]);
    reflexivity.
Defined.

(** X3. A state reached from mounting in which no session is running and
    whose render is up to date (the handlers in place closed over
    [running] false) is left exactly as it is by any sequence of taps,
    callbacks and renders: only [start] or [reset] moves the component
    out of a rendered Idle or Finished. *)
Theorem rest_is_stable (evs0 evs : list Event) :
  let s := run initial evs0 in
  renderedRunning s = false →
  withinSession evs = true →
  run s evs = s.
Proof.
  intros s Hr Hw. apply rest_trace; [|assumption..].
  apply armed_run, armed_initial.
Qed.

Lemma rest_is_stable_witness :
  run (run initial [Start 0; Tap; Tick 1 5000; Render])
      [Tap; Tick 1 5050; Render; Tap] =
  run initial [Start 0; Tap; Tick 1 5000; Render].
Proof.
  apply (rest_is_stable [Start 0; Tap; Tick 1%positive 5000; Render]
           [Tap; Tick 1%positive 5050; Render; Tap]);
    vm_compute; reflexivity.
Defined.

(** X4. The time shown after a callback depends only on the reading taken
    by the last [start] and on the reading of that callback: however many
    taps, callbacks and resets came in between, it is
    [max 0 (t0 + DURATION_MS - now)]. *)
Theorem remaining_no_drift (s : State) (t0 now : Z) (evs : list Event) :
  noStart evs = true →
  remaining (tick now (run (start t0 s) evs)) =
  Z.max 0 (t0 + DURATION_MS - now).
Proof.
  intros Hn. rewrite tick_remaining, (endAtRef_run evs _ Hn).
  rewrite (proj1 (proj2 (proj2 (proj2 (start_fields t0 s))))). reflexivity.
Qed.

Lemma remaining_no_drift_witness :
  remaining (tick 1300
    (run (start 100 initial) [Tick 1 150; Tap; Tick 1 900; Tap])) =
  Z.max 0 (100 + DURATION_MS - 1300).
Proof.
  apply (remaining_no_drift initial 100 1300
           [Tick 1%positive 150; Tap; Tick 1%positive 900; Tap]).
  reflexivity.
Defined.

(** X11. Inside a session the time shown never goes up when the clock
    does not go back: of two callbacks with readings [now1 <= now2] and no
    [start] between them, the later one shows at most what the earlier one
    showed. *)
Theorem remaining_never_rises (s : State) (now1 now2 : Z) (evs : list Event) :
  noStart evs = true →
  now1 <= now2 →
  remaining (tick now2 (run (tick now1 s) evs)) <= remaining (tick now1 s).
Proof.
  intros Hn Hle.
  rewrite !tick_remaining, (endAtRef_run evs _ Hn), tick_endAtRef. lia.
Qed.

Lemma remaining_never_rises_witness :
  remaining (tick 900 (run (tick 150 (start 100 initial)) [Tap; Tap])) <=
  remaining (tick 150 (start 100 initial)).
Proof.
  apply (remaining_never_rises (start 100 initial) 150 900 [Tap; Tap]);
    [reflexivity|lia].
Defined.

(** *** The result of a session *)

Lemma cps_fifth s : cps s = toFixed2 (clicks s # 5).
Proof. apply toFixed2_Qeq, cpsValue_fifth. Qed.

(** X5. Start a session at [t0], let any taps and callbacks follow while
    it is running, and let a callback read the clock at or after
    [t0 + DURATION_MS]: that callback is the one of the armed interval, it
    ends the session, and the summary line shows the number of taps of the
    session and that number over five, to two digits. *)
Theorem session_result (evs0 evs : list Event) (t0 now : Z) :
  let s1 := run (start t0 (run initial evs0)) evs in
  withinSession evs = true →
  running s1 = true →
  t0 + DURATION_MS <= now →
  let s' := tick now s1 in
  (∃ t, step s1 (Tick t now) = s') ∧
  phase s' = Finished ∧
  clicks s' = countTaps evs ∧
  summary (render s') =
    Some (countTaps evs, toFixed2 (countTaps evs # 5)).
Proof.
  intros s1 Hw Hr Hlate s'.
  assert (Ha : armed s1).
  { apply armed_run, armed_start, armed_run, armed_initial. }
  destruct (session_trace evs _ Hw Hr) as (_ & Hd & Hc).
  destruct (start_fields t0 (run initial evs0)) as (_ & Hc0 & _ & Hd0 & _).
  cbv zeta in Hc0, Hd0. rewrite Hd0 in Hd. rewrite Hc0 in Hc.
  fold s1 in Hd, Hc.
  assert (Hleft : Z.max 0 (endAtRef s1 - now) = 0) by lia.
  assert (Hfin : phase s' = Finished).
  { apply phase_Finished. subst s'.
    rewrite tick_running, tick_remaining, Hleft. split; reflexivity. }
  assert (Hcl : clicks s' = countTaps evs).
  { subst s'. rewrite tick_clicks, Hc. lia. }
  split.
  { destruct (running_tick_fires s1 now Ha Hr) as (t & _ & Ht). eauto. }
  split; [exact Hfin|]. split; [exact Hcl|].
  apply finished_phase in Hfin. cbn [render summary]. rewrite Hfin.
  rewrite cps_fifth, Hcl. reflexivity.
Qed.

Lemma session_result_witness :
  summary (render (tick 5100
    (run (start 100 (run initial [Start 0; Tap; Reset]))
         [Tap; Tick 2 150; Tap; Tap; Tick 2 5000; Tap]))) =
  Some (countTaps [Tap; Tick 2 150; Tap; Tap; Tick 2 5000; Tap],
        toFixed2 (countTaps [Tap; Tick 2 150; Tap; Tap; Tick 2 5000; Tap] # 5)).
Proof.
  apply (session_result [Start 0; Tap; Reset]
           [Tap; Tick 2%positive 150; Tap; Tap; Tick 2%positive 5000; Tap]
           100 5100); [reflexivity|reflexivity|vm_compute; discriminate].
Defined.

Lemma hundredths_of_fifths c :
  0 <= c → Qfloor (Qabs (c # 5) * 100 + (1 # 2)) = 20 * c.
Proof.
  intros Hc. unfold Qfloor, Qabs, Qmult, Qplus. cbn [Qnum Qden].
  rewrite Z.abs_eq by exact Hc.
  change (Z.pos (5 * 1 * 2)) with 10.
  change (Z.pos (5 * 1)) with 5. change (Z.pos 2) with 2.
  symmetry. apply Z.div_unique with (r := 5); lia.
Qed.

(** X6. For a counter that is not negative the rate is printed without any
    rounding: the whole part is [clicks / 5] and the fraction is one of
    00, 20, 40, 60, 80 according to [clicks mod 5]. *)
Theorem cps_text (s : State) :
  0 <= clicks s →
  cps s =
  String.append (showZ (clicks s / 5))
    (String.append "."
       (match clicks s mod 5 with
        | 0 => "00" | 1 => "20" | 2 => "40" | 3 => "60" | _ => "80"
        end)).
Proof.
  intros Hc. rewrite cps_fifth. unfold toFixed2.
  rewrite (hundredths_of_fifths _ Hc).
  assert (Hle : Qle_bool 0 (clicks s # 5) = true).
  { apply Qle_bool_iff. unfold Qle. simpl. lia. }
  rewrite Hle.
  assert (Hq : 20 * clicks s / 100 = clicks s / 5).
  { symmetry. apply Z.div_unique with (r := 20 * (clicks s mod 5)).
    - left. pose proof (Z.mod_pos_bound (clicks s) 5). lia.
    - pose proof (Z.div_mod (clicks s) 5). lia. }
  assert (Hm : (20 * clicks s) mod 100 = 20 * (clicks s mod 5)).
  { symmetry. apply Z.mod_unique with (q := clicks s / 5).
    - left. pose proof (Z.mod_pos_bound (clicks s) 5). lia.
    - pose proof (Z.div_mod (clicks s) 5). lia. }
  rewrite Hq, Hm.
  pose proof (Z.mod_pos_bound (clicks s) 5 ltac:(lia)) as Hb.
  assert (Hcase : clicks s mod 5 = 0 ∨ clicks s mod 5 = 1 ∨
                  clicks s mod 5 = 2 ∨ clicks s mod 5 = 3 ∨
                  clicks s mod 5 = 4) by lia.
  destruct Hcase as [->|[->|[->|[->| ->]]]]; reflexivity.
Qed.

Lemma cps_text_witness :
  cps (run initial [Start 0; Tap; Tap; Tap; Tap; Tap; Tap; Tap]) = "1.40"%string.
Proof.
  apply (cps_text (run initial [Start 0; Tap; Tap; Tap; Tap; Tap; Tap; Tap])).
  vm_compute. discriminate.
Defined.

(** *** Intervals over the life of the component *)

Lemma issued_initial : issued initial.
Proof. split; [set_solver | discriminate]. Qed.

Lemma issued_step s e : issued s → issued (step s e).
Proof.
  intros [Hiv Htr]. destruct e as [now| | |t now|]; cbn [step].
  - destruct (start_fields now s) as (_ & _ & _ & _ & Ht & Hi & Hn).
    cbv zeta in Ht, Hi, Hn. unfold issued. rewrite Ht, Hi, Hn. split.
    + intros t Hin. apply elem_of_union in Hin as [Hin|Hin].
      * apply elem_of_difference in Hin as [Hin _].
        specialize (Hiv t Hin). lia.
      * apply elem_of_singleton in Hin as ->. lia.
    + intros t [= <-]. lia.
  - destruct (reset_fields s) as (_ & _ & _ & _ & Ht & Hi & Hn).
    cbv zeta in Ht, Hi, Hn. unfold issued. rewrite Ht, Hi, Hn. split.
    + intros t Hin. apply elem_of_difference in Hin as [Hin _]. auto.
    + discriminate.
  - destruct (handleClick_cases s) as [[_ ->]|[_ ->]]; split; assumption.
  - case_decide; [|split; assumption].
    unfold issued, tick. break_state s.
    destruct (Z.max 0 (ea - now) <=? 0); [|split; assumption].
    destruct tr as [t'|]; simpl; split; try discriminate; try assumption.
    intros t0 Hin. apply elem_of_difference in Hin as [Hin _]. auto.
  - split; assumption.
Qed.

Lemma issued_run evs : ∀ s, issued s → issued (run s evs).
Proof.
  induction evs as [|e evs IH]; intros s H; [exact H|].
  rewrite run_cons. apply IH, issued_step, H.
Qed.

Lemma clearCurrent_fields s :
  running (clearCurrent s) = running s ∧
  clicks (clearCurrent s) = clicks s ∧
  remaining (clearCurrent s) = remaining s ∧
  endAtRef (clearCurrent s) = endAtRef s ∧
  intervals (clearCurrent s) = intervals s ∖ current s.
Proof.
  unfold clearCurrent, current. destruct (timerRef s); simpl.
  - repeat (split; [reflexivity|]). reflexivity.
  - repeat (split; [reflexivity|]). set_solver.
Qed.

(** X7. Unmounting in any state reached from mounting leaves no interval
    armed, so no callback changes the state afterwards; the cleanup itself
    touches none of [running], [clicks] and [remaining]. *)
Theorem unmount_silences (evs : list Event) :
  let s := run initial evs in
  intervals (unmount s) = ∅ ∧
  (∀ t now, step (unmount s) (Tick t now) = unmount s) ∧
  running (unmount s) = running s ∧
  clicks (unmount s) = clicks s ∧
  remaining (unmount s) = remaining s.
Proof.
  intros s. unfold unmount.
  destruct (clearCurrent_fields s) as (Hr & Hc & Hm & _ & Hiv).
  assert (Hnone : intervals (clearCurrent s) = ∅).
  { rewrite Hiv. apply armed_cleared, armed_run, armed_initial. }
  split; [exact Hnone|]. split; [|auto].
  intros t now. apply disarmed_tick_skipped, Hnone.
Qed.

(** X8. [setInterval] never returns a handle again: in a state reached
    from mounting, the interval held in the ref or armed before a [start]
    is not the one that [start] arms, and its callback does nothing once
    the new session has begun. *)
Theorem restart_supersedes (evs : list Event) (now : Z) (t : TimerId) :
  let s := run initial evs in
  timerRef s = Some t ∨ t ∈ intervals s →
  timerRef (start now s) ≠ Some t ∧
  (t ∉ intervals (start now s)) ∧
  ∀ now', step (start now s) (Tick t now') = start now s.
Proof.
  intros s Hold.
  assert (Hlt : (t < nextId s)%positive).
  { destruct (issued_run evs initial issued_initial) as [Hiv Htr].
    destruct Hold; auto. }
  destruct (start_fields now s) as (_ & _ & _ & _ & Ht & Hi & _).
  cbv zeta in Ht, Hi.
  assert (Hout : t ∉ intervals (start now s)).
  { rewrite Hi, armed_cleared by apply armed_run, armed_initial.
    intros Hin. apply elem_of_union in Hin as [Hin|Hin]; [set_solver|].
    apply elem_of_singleton in Hin. lia. }
  split; [|split; [exact Hout|]].
  - rewrite Ht. intros [= Heq]. lia.
  - intros now'. cbn [step]. case_decide; [contradiction|reflexivity].
Qed.

Lemma restart_supersedes_witness :
  step (start 300 (run initial [Start 0; Tap; Tick 1 50])) (Tick 1 350) =
  start 300 (run initial [Start 0; Tap; Tick 1 50]).
Proof.
  apply (restart_supersedes [Start 0; Tap; Tick 1%positive 50] 300 1%positive).
  left. reflexivity.
Defined.

(** *** Through the buttons *)

(** X9. While a session is running, and as long as the reset button is not
    pressed and no callback reads the clock at or after the deadline, the
    session goes on with the same deadline: presses of the start button
    are not delivered, and every press of the click area adds one. *)
Theorem ui_session_undisturbed (s : State) (evs : list UiEvent) :
  running s = true →
  undisturbed (endAtRef s) evs = true →
  running (uiRun s evs) = true ∧
  endAtRef (uiRun s evs) = endAtRef s ∧
  clicks (uiRun s evs) = clicks s + countClicks evs.
Proof.
  revert s. induction evs as [|e evs IH]; intros s Hr Hu.
  - simpl. split; [exact Hr|]. split; [reflexivity|lia].
  - cbn [undisturbed forallb] in Hu. apply andb_true_iff in Hu.
    destruct Hu as [He Hu].
    assert (Hstep : running (uiStep s e) = true ∧
                    endAtRef (uiStep s e) = endAtRef s ∧
                    clicks (uiStep s e) = clicks s +
                      match e with Pressed PressClick => 1 | _ => 0 end).
    { pose proof (running_rendered s Hr) as Hseen.
      destruct e as [[now| |]|t now|]; cbn [uiStep press].
      - rewrite Hseen. split; [exact Hr|]. split; [reflexivity|lia].
      - discriminate.
      - rewrite Hseen. cbn [negb]. unfold handleClick. rewrite Hseen. simpl.
        split; [exact Hr|]. split; reflexivity.
      - apply Z.ltb_lt in He. cbn [step]. case_decide.
        + rewrite tick_running, tick_endAtRef, tick_clicks.
          assert (Hgt : (Z.max 0 (endAtRef s - now) <=? 0) = false)
            by (apply Z.leb_gt; lia).
          rewrite Hgt. split; [exact Hr|]. split; [reflexivity|lia].
        + split; [exact Hr|]. split; [reflexivity|lia].
      - cbn [step]. split; [exact Hr|]. split; [reflexivity|simpl; lia]. }
    destruct Hstep as (Hr1 & Hd1 & Hc1).
    change (uiRun s (e :: evs)) with (uiRun (uiStep s e) evs).
    rewrite <- Hd1 in Hu. destruct (IH _ Hr1 Hu) as (Hr2 & Hd2 & Hc2).
    split; [exact Hr2|]. split; [congruence|].
    rewrite Hc2, Hc1. cbn [countClicks]. lia.
Qed.

Lemma ui_session_undisturbed_witness :
  clicks (uiRun (start 0 initial)
    [Pressed PressClick; Pressed (PressStart 20); Fired 1 50;
     Pressed PressClick; Fired 1 4999]) =
  clicks (start 0 initial) + 2.
Proof.
  apply (ui_session_undisturbed (start 0 initial)
    [Pressed PressClick; Pressed (PressStart 20); Fired 1%positive 50;
     Pressed PressClick; Fired 1%positive 4999]); reflexivity.
Defined.

(** *** Theme *)

(** X10. After [n] presses of the theme toggle the scheme is the one it
    was when [n] is even and the other one when [n] is odd, and the
    palette in use is the original one exactly when [n] is even. *)
Theorem toggles_parity (n : nat) (c : Theme.Scheme) :
  Theme.toggles n c = (if Nat.even n then c else Theme.toggle c) ∧
  (Theme.PALETTE (Theme.toggles n c) = Theme.PALETTE c ↔ Nat.even n = true).
Proof.
  assert (Hpar : Theme.toggles n c = if Nat.even n then c else Theme.toggle c).
  { induction n as [|n IH]; [reflexivity|].
    change (Theme.toggles (S n) c) with (Theme.toggle (Theme.toggles n c)).
    rewrite IH, Nat.even_succ, <- Nat.negb_even.
    destruct (Nat.even n), c; reflexivity. }
  split; [exact Hpar|]. rewrite Hpar.
  destruct (Nat.even n), c; simpl; split; try reflexivity; discriminate.
Qed.

(** *** Taps and the render in place *)

Lemma lagging_initial : lagging initial.
Proof. unfold lagging. discriminate. Qed.

Lemma lagging_step s e : armed s → lagging s → lagging (step s e).
Proof.
  intros Ha Hl. destruct e as [now| | |t now|]; cbn [step].
  - unfold lagging, start, clearCurrent. break_state s.
    destruct tr; discriminate.
  - unfold lagging, reset, clearCurrent. break_state s.
    destruct tr; discriminate.
  - destruct (handleClick_cases s) as [[_ ->]|[_ ->]]; exact Hl.
  - case_decide as Hin; [|exact Hl].
    assert (Hr : running s = true).
    { unfold armed in Ha. destruct (running s); [reflexivity|].
      destruct Ha as [_ Hiv]. rewrite Hiv in Hin. set_solver. }
    intros Hst. rewrite tick_running, tick_remaining.
    destruct (Z.leb_spec (Z.max 0 (endAtRef s - now)) 0) as [Hle|Hlt].
    + split; [reflexivity|lia].
    + exfalso. apply Z.leb_gt in Hlt. unfold tick in Hst. rewrite Hlt in Hst.
      simpl in Hst. destruct (Hl Hst) as [Hr' _]. congruence.
  - unfold lagging. discriminate.
Qed.

Lemma lagging_run evs : ∀ s, armed s → lagging s → lagging (run s evs).
Proof.
  induction evs as [|e evs IH]; intros s Ha Hl; [exact Hl|].
  rewrite run_cons. apply IH; [apply armed_step, Ha|apply lagging_step; auto].
Qed.

(** X12. In a state reached from mounting, a tap adds exactly one to
    [clicks] when the phase is Running and returns the state unchanged
    when the phase is Idle; when the phase is Finished it returns the
    state unchanged once that state has been rendered.  The render is
    behind only in the Finished phase. *)
Theorem tap_by_phase (evs : list Event) :
  let s := run initial evs in
  (phase s = Running → clicks (handleClick s) = clicks s + 1) ∧
  (phase s = Idle → handleClick s = s) ∧
  (phase s = Finished → stale s = false → handleClick s = s) ∧
  (stale s = true → phase s = Finished).
Proof.
  intros s.
  assert (Hl : lagging s).
  { apply lagging_run; [apply armed_initial|apply lagging_initial]. }
  assert (Hlag : stale s = true → phase s = Finished).
  { intros Hst. apply phase_Finished. exact (Hl Hst). }
  split; [|split; [|split; [|exact Hlag]]].
  - intros Hph. apply phase_Running in Hph.
    apply (proj1 (handleClick_effect s)), running_rendered, Hph.
  - intros Hph. apply (proj2 (handleClick_effect s)).
    destruct (stale s) eqn:Hst.
    + rewrite (Hlag eq_refl) in Hph. discriminate.
    + apply phase_Idle in Hph. unfold renderedRunning.
      rewrite (proj1 Hph), Hst. reflexivity.
  - intros Hph Hst. apply (proj2 (handleClick_effect s)).
    apply phase_Finished in Hph. unfold renderedRunning.
    rewrite (proj1 Hph), Hst. reflexivity.
Qed.

Lemma tap_by_phase_witness :
  clicks (handleClick (run initial [Start 0; Tap])) = 1 + 1 ∧
  handleClick (run initial [Start 0; Tap; Reset]) =
    run initial [Start 0; Tap; Reset] ∧
  handleClick (run initial [Start 0; Tap; Tick 1 5000; Render]) =
    run initial [Start 0; Tap; Tick 1 5000; Render].
Proof.
  split; [|split].
  - apply (proj1 (tap_by_phase [Start 0; Tap])). reflexivity.
  - apply (proj1 (proj2 (tap_by_phase [Start 0; Tap; Reset]))).
    vm_compute. reflexivity.
  - apply (proj1 (proj2 (proj2
             (tap_by_phase [Start 0; Tap; Tick 1%positive 5000; Render]))));
      vm_compute; reflexivity.
Defined.

(** ** The timer text on ties *)

(** [15 / 1000] and [1005 / 1000] are not binary64 numbers; the nearest
    ones lie below, and so do the texts. *)
Example seconds_below_tie :
  seconds (setRemaining 15 initial) = "0.01"%string ∧
  seconds (setRemaining 1005 initial) = "1.00"%string ∧
  seconds (setRemaining 25 initial) = "0.03"%string.
Proof. vm_compute. repeat split. Qed.
